(** * The J2534 native probe

    A model of [AutoDiag/native/j2534_native_probe.cpp]: a command-line
    program that loads a vendor J2534 ("PassThru") library, binds three entry
    points, opens and closes a device session, and reports the outcome as one
    status line plus an exit code.

    The program is a straight line of foreign calls with early returns.  It is
    embedded as a computation in a small state monad whose state is the
    process as an observer sees it: the foreign calls made so far and what was
    inserted into [std::cout] and [std::cerr].  Everything the operating
    system and the driver answer is read from a [World] record. *)

From Stdlib Require Import ZArith String Ascii List Bool Lia DecimalString.
From Stdlib Require DecimalPos DecimalZ.
Import ListNotations.
Local Open Scope string_scope.
Local Open Scope list_scope.
Local Open Scope Z_scope.

(** ** Characters and C string literals *)

Definition dquote : ascii := "034"%char.
Definition newline : ascii := "010"%char.
Definition NUL : ascii := "000"%char.

(** The string literals of the source are kept readable: each escaped double
    quote of the C++ text is written as an apostrophe (no literal of the source
    holds an apostrophe), and the escape [\n] is kept as it is.  [c_lit] turns
    such a text into the characters the C++ literal denotes. *)
Fixpoint c_lit (s : string) : string :=
  match s with
  | EmptyString => EmptyString
  | String "\" (String "n" t) => String newline (c_lit t)
  | String c t => String (if Ascii.eqb c "'" then dquote else c) (c_lit t)
  end.

(** ** The C and Win32 types the program uses

    [long] and [unsigned long] are 32 bits wide under the Windows ABI; the
    program never does arithmetic on them (it compares with zero, passes them
    on and prints them), so they are carried as [Z]. *)

Definition DWORD := Z.
Definition long := Z.
Definition ulong := Z.
(** Handles and function pointers: an address, [NULL] being zero. *)
Definition HMODULE := Z.
Definition FARPROC := Z.
Definition NULL : Z := 0.
(** [LPSTR buffer]: either [nullptr] or a pointer to characters. *)
Definition LPSTR := option string.

(** The C++ test [!p] on a pointer. *)
Definition is_null (p : Z) : bool := p =? NULL.

(** ** The environment of one run *)

Record World := {
  (** [LoadLibraryA(path)]: the module handle, [NULL] on failure. *)
  sys_LoadLibraryA : string -> HMODULE;
  (** [GetLastError()] as read after a failed load. *)
  sys_GetLastError : DWORD;
  (** [FormatMessageA(ALLOCATE_BUFFER | FROM_SYSTEM | IGNORE_INSERTS, ..,
      err, ..)]: the returned character count and the value left in
      [buffer]. *)
  sys_FormatMessageA : DWORD -> DWORD * LPSTR;
  (** [GetProcAddress(lib, name)]: the export's address, [NULL] if absent. *)
  sys_GetProcAddress : HMODULE -> string -> FARPROC;
  (** [PassThruOpen(nullptr, &deviceId)]: from the content of the slot before
      the call to the returned status and the content of the slot after. *)
  drv_PassThruOpen : ulong -> long * ulong;
  (** [PassThruGetLastError(err)]: the bytes the driver stores from [err[0]]
      on (its terminator included if it writes one). *)
  drv_PassThruGetLastError : string;
  (** [PassThruClose(deviceId)]: the returned status. *)
  drv_PassThruClose : ulong -> long
}.

(** ** The observable process *)

(** A foreign call, with the arguments that matter to an observer. *)
Inductive call : Type :=
| LoadLibraryA_call (path : string)
| GetLastError_call
| FormatMessageA_call (err : DWORD)
| LocalFree_call
| GetProcAddress_call (lib : HMODULE) (name : string)
| FreeLibrary_call (lib : HMODULE)
| PassThruOpen_call (deviceId : ulong)
| PassThruGetLastError_call
| PassThruClose_call (deviceId : ulong).

(** An operand of [operator<<]: a string literal of the program, text that
    was computed at run time, a [long], or [std::endl]. *)
Inductive item : Type :=
| Literal (s : string)
| Text (s : string)
| Number (n : long)
| Endl.

Inductive stream : Type := Cout | Cerr.

Record Process := {
  calls : list call;     (* oldest first *)
  cout : list item;
  cerr : list item
}.

Definition start : Process := {| calls := []; cout := []; cerr := [] |}.

(** ** The monad of the run *)

Definition Run (A : Type) : Type := Process -> A * Process.

Definition ret {A : Type} (a : A) : Run A := fun p => (a, p).

Definition bind {A B : Type} (m : Run A) (k : A -> Run B) : Run B :=
  fun p => let (a, p') := m p in k a p'.

Declare Scope run_scope.
Delimit Scope run_scope with run.
Notation "x <- m ;; k" := (bind m (fun x => k))
  (at level 61, m at next level, right associativity) : run_scope.
Notation "' pat <- m ;; k" := (bind m (fun x => match x with pat => k end))
  (at level 61, pat pattern, m at next level, right associativity) : run_scope.
Notation "m ;; k" := (bind m (fun _ => k))
  (at level 61, right associativity) : run_scope.
Local Open Scope run_scope.

Definition log (c : call) : Run unit :=
  fun p => (tt, {| calls := calls p ++ [c]; cout := cout p; cerr := cerr p |}).

(** [s << i1 << i2 << ...] *)
Definition insert (s : stream) (l : list item) : Run unit :=
  fun p =>
    match s with
    | Cout => (tt, {| calls := calls p; cout := cout p ++ l; cerr := cerr p |})
    | Cerr => (tt, {| calls := calls p; cout := cout p; cerr := cerr p ++ l |})
    end.

(** ** The foreign calls *)

Definition LoadLibraryA (w : World) (path : string) : Run HMODULE :=
  log (LoadLibraryA_call path) ;; ret (sys_LoadLibraryA w path).

Definition GetLastError (w : World) : Run DWORD :=
  log GetLastError_call ;; ret (sys_GetLastError w).

Definition FormatMessageA (w : World) (err : DWORD) : Run (DWORD * LPSTR) :=
  log (FormatMessageA_call err) ;; ret (sys_FormatMessageA w err).

Definition LocalFree : Run unit := log LocalFree_call.

Definition GetProcAddress (w : World) (lib : HMODULE) (name : string)
  : Run FARPROC :=
  log (GetProcAddress_call lib name) ;; ret (sys_GetProcAddress w lib name).

Definition FreeLibrary (lib : HMODULE) : Run unit := log (FreeLibrary_call lib).

Definition PassThruOpen (w : World) (deviceId : ulong) : Run (long * ulong) :=
  log (PassThruOpen_call deviceId) ;; ret (drv_PassThruOpen w deviceId).

(** Storing [bytes] from the start of a buffer.  This is what the driver's
    write does as long as [bytes] is no longer than the buffer.  The program
    hands the driver a bare [char*] with no length: longer bytes overrun
    [err] and the rest of the frame, which has no defined behaviour; here they
    are dropped, so a statement about the run that reads the buffer holds of
    the program only under a bound on [bytes] ([within_err] below). *)
Fixpoint store (bytes : string) (buf : list ascii) : list ascii :=
  match bytes, buf with
  | String c t, _ :: buf' => c :: store t buf'
  | _, _ => buf
  end.

Definition PassThruGetLastError (w : World) (err : list ascii)
  : Run (list ascii) :=
  log PassThruGetLastError_call ;; ret (store (drv_PassThruGetLastError w) err).

Definition PassThruClose (w : World) (deviceId : ulong) : Run long :=
  log (PassThruClose_call deviceId) ;; ret (drv_PassThruClose w deviceId).

(** A [char] array read as a C string: the characters before the first
    [NUL].  Inserting a [char] pointer into a stream does this as long as the
    array holds a [NUL]; without one it reads on past the array, where this
    function stops at the end of the list (again outside [within_err]). *)
Fixpoint c_str (buf : list ascii) : string :=
  match buf with
  | [] => EmptyString
  | c :: t => if Ascii.eqb c NUL then EmptyString else String c (c_str t)
  end.

(** ** The program *)

(** [static std::string GetLastWinError()].  [std::string(buffer, size)] is
    the first [size] characters at [buffer]. *)
Definition GetLastWinError (w : World) : Run string :=
  err <- GetLastError w ;;
  if err =? 0 then
    ret "none"
  else
    '(size, buffer) <- FormatMessageA w err ;;
    let msg :=
      match negb (size =? 0), buffer with
      | true, Some chars => substring 0 (Z.to_nat size) chars
      | _, _ => "unknown"
      end in
    (match buffer with Some _ => LocalFree | None => ret tt end) ;;
    ret msg.

(** [argv[1]] *)
Definition dllPath (argv : list string) : string := nth 1 argv EmptyString.

(** [int main(int argc, char* argv[])], with [argc] the length of [argv]. *)
Definition main (w : World) (argv : list string) : Run Z :=
  let argc := Z.of_nat (List.length argv) in
  if argc <? 2 then
    insert Cerr
      [Literal (c_lit "usage: j2534_native_probe <path-to-j2534-dll>\n")] ;;
    ret 2
  else
    lib <- LoadLibraryA w (dllPath argv) ;;
    if is_null lib then
      msg <- GetLastWinError w ;;
      insert Cerr
        [Literal (c_lit "{'status':'error','stage':'load','message':'");
         Text msg; Literal (c_lit "'}"); Endl] ;;
      ret 1
    else
      passThruOpen <- GetProcAddress w lib "PassThruOpen" ;;
      passThruClose <- GetProcAddress w lib "PassThruClose" ;;
      passThruGetLastError <- GetProcAddress w lib "PassThruGetLastError" ;;
      if is_null passThruOpen || is_null passThruClose
         || is_null passThruGetLastError
      then
        insert Cerr
          [Literal (c_lit "{'status':'error','stage':'symbols','message':'Required J2534 exports missing'}");
           Endl] ;;
        FreeLibrary lib ;;
        ret 1
      else
        let deviceId := 0 in
        '(openStatus, deviceId) <- PassThruOpen w deviceId ;;
        if negb (openStatus =? 0) then
          let err := repeat NUL 256 in
          err <- PassThruGetLastError w err ;;
          insert Cerr
            [Literal (c_lit "{'status':'error','stage':'open','code':");
             Number openStatus; Literal (c_lit ",'message':'");
             Text (c_str err); Literal (c_lit "'}"); Endl] ;;
          FreeLibrary lib ;;
          ret 1
        else
          closeStatus <- PassThruClose w deviceId ;;
          FreeLibrary lib ;;
          if negb (closeStatus =? 0) then
            insert Cerr
              [Literal (c_lit "{'status':'error','stage':'close','code':");
               Number closeStatus;
               Literal (c_lit ",'message':'PassThruClose failed'}"); Endl] ;;
            ret 1
          else
            insert Cout
              [Literal (c_lit "{'status':'ok','message':'J2534 DLL probe successful'}");
               Endl] ;;
            ret 0.

(** ** What an observer sees of a run *)

Definition run (w : World) (argv : list string) : Z * Process :=
  main w argv start.

Definition exit_code (w : World) (argv : list string) : Z := fst (run w argv).
Definition final (w : World) (argv : list string) : Process := snd (run w argv).

(** [operator<<(long)] prints in decimal, with a minus sign when negative. *)
Definition show_long (n : long) : string :=
  NilZero.string_of_int (Z.to_int n).

Definition render_item (i : item) : string :=
  match i with
  | Literal s => s
  | Text s => s
  | Number n => show_long n
  | Endl => String newline EmptyString
  end.

(** The characters a stream received. *)
Fixpoint render (l : list item) : string :=
  match l with
  | [] => EmptyString
  | i :: l' => (render_item i ++ render l')%string
  end.

Definition stdout_text (w : World) (argv : list string) : string :=
  render (cout (final w argv)).
Definition stderr_text (w : World) (argv : list string) : string :=
  render (cerr (final w argv)).

(** The handles passed to [FreeLibrary], in order. *)
Fixpoint released (tr : list call) : list HMODULE :=
  match tr with
  | [] => []
  | FreeLibrary_call h :: tr' => h :: released tr'
  | _ :: tr' => released tr'
  end.

(** Calls through the three pointers bound from the library. *)
Definition is_open_call (c : call) : bool :=
  match c with PassThruOpen_call _ => true | _ => false end.
Definition is_close_call (c : call) : bool :=
  match c with PassThruClose_call _ => true | _ => false end.
Definition is_get_last_error_call (c : call) : bool :=
  match c with PassThruGetLastError_call => true | _ => false end.
Definition is_entry_point_call (c : call) : bool :=
  is_open_call c || is_close_call c || is_get_last_error_call c.

(** ** The vocabulary of the specification, read off a [World] *)

(** The handle the load step obtains. *)
Definition loaded_lib (w : World) (argv : list string) : HMODULE :=
  sys_LoadLibraryA w (dllPath argv).

(** A path argument is present and the library at that path loads. *)
Definition loads (w : World) (argv : list string) : Prop :=
  (2 <= List.length argv)%nat /\ loaded_lib w argv <> NULL.

(** A path argument is present and loading the library fails. *)
Definition load_fails (w : World) (argv : list string) : Prop :=
  (2 <= List.length argv)%nat /\ loaded_lib w argv = NULL.

Definition export (w : World) (argv : list string) (name : string) : FARPROC :=
  sys_GetProcAddress w (loaded_lib w argv) name.

Definition symbols_resolve (w : World) (argv : list string) : Prop :=
  export w argv "PassThruOpen" <> NULL /\
  export w argv "PassThruClose" <> NULL /\
  export w argv "PassThruGetLastError" <> NULL.

Definition symbol_missing (w : World) (argv : list string) : Prop :=
  export w argv "PassThruOpen" = NULL \/
  export w argv "PassThruClose" = NULL \/
  export w argv "PassThruGetLastError" = NULL.

(** What the open call returns and the device id it leaves in the slot, which
    the program initialises to zero. *)
Definition open_status (w : World) : long := fst (drv_PassThruOpen w 0).
Definition opened_device (w : World) : ulong := snd (drv_PassThruOpen w 0).

(** What the close call returns for that device id. *)
Definition close_status (w : World) : long :=
  drv_PassThruClose w (opened_device w).

(** ** Reading a status report

    A report is the sequence of operands inserted into a stream.  The fields
    the program itself writes are found in the [Literal] operands, so text
    handed in by the platform or the driver cannot pass for a field. *)

Fixpoint contains (needle hay : string) : bool :=
  String.prefix needle hay
  || match hay with
     | EmptyString => false
     | String _ t => contains needle t
     end.

Fixpoint ends_with (suffix s : string) : bool :=
  String.eqb suffix s
  || match s with
     | EmptyString => false
     | String _ t => ends_with suffix t
     end.

Definition literal_has (needle : string) (l : list item) : bool :=
  existsb (fun i => match i with Literal s => contains needle s | _ => false end) l.

(** The value of the numeric [code] field: the number inserted right after
    the key, if the report has one. *)
Fixpoint code_field (l : list item) : option long :=
  match l with
  | [] => None
  | Literal s :: l' =>
      match l' with
      | Number n :: _ =>
          if ends_with (c_lit "'code':") s then Some n else code_field l'
      | _ => code_field l'
      end
  | _ :: l' => code_field l'
  end.

Inductive Stage : Type := load | symbols | open | close.

Definition stage_name (st : Stage) : string :=
  match st with
  | load => "load"
  | symbols => "symbols"
  | open => "open"
  | close => "close"
  end.

(** The report carries ["stage":"<name>"]. *)
Definition has_stage (st : Stage) (l : list item) : bool :=
  literal_has (c_lit "'stage':'" ++ stage_name st ++ c_lit "'")%string l.

(** The report carries ["status":"ok"]. *)
Definition is_success (l : list item) : bool :=
  literal_has (c_lit "'status':'ok'") l.

(** Everything a run emitted, on either stream. *)
Definition report (w : World) (argv : list string) : list item :=
  cout (final w argv) ++ cerr (final w argv).

(** ** The platform's error text, in the words of the specification

    The recorded error is translated; a translation is the first [size]
    characters of the buffer when the platform returned a non-zero count and a
    buffer. *)

Definition translation (w : World) : option string :=
  match sys_FormatMessageA w (sys_GetLastError w) with
  | (size, Some chars) =>
      if size =? 0 then None else Some (substring 0 (Z.to_nat size) chars)
  | (_, None) => None
  end.

Definition platform_error_text (w : World) : string :=
  if sys_GetLastError w =? 0 then "none"
  else match translation w with
       | Some text => text
       | None => "unknown"
       end.

(** The driver's text is a proper C string for the 256-byte buffer: no [NUL]
    inside, and room left for the terminator. *)
Fixpoint no_NUL (s : string) : bool :=
  match s with
  | EmptyString => true
  | String c t => negb (Ascii.eqb c NUL) && no_NUL t
  end.

Definition fits_buffer (s : string) : Prop :=
  no_NUL s = true /\ (String.length s < 256)%nat.

(** The bytes up to the first [NUL]: the text a NUL-terminated sequence of
    bytes denotes. *)
Fixpoint until_NUL (s : string) : string :=
  match s with
  | EmptyString => EmptyString
  | String c t => if Ascii.eqb c NUL then EmptyString else String c (until_NUL t)
  end.

(** What the driver stores stays within [char err[256]] and leaves it
    terminated: it writes at most 256 bytes, and either fewer than 256 (a
    zero of the initialiser then follows them) or a [NUL] among them.  Up to
    this bound the program has defined behaviour and [store] and [c_str] are
    what it does; beyond it nothing can be said of the run. *)
Definition within_err (s : string) : Prop :=
  (String.length s <= 256)%nat /\
  ((String.length s < 256)%nat \/ no_NUL s = false).

(** The driver's error text: the bytes it stores, up to its terminator. *)
Definition driver_c_string (w : World) : string :=
  until_NUL (drv_PassThruGetLastError w).

(** The run reaches the call of [passThruGetLastError]. *)
Definition reads_driver_text (w : World) (argv : list string) : Prop :=
  loads w argv /\ symbols_resolve w argv /\ open_status w <> 0.

(** If the run asks the driver for its error text, the driver keeps to the
    buffer it is given. *)
Definition driver_keeps_to_err (w : World) (argv : list string) : Prop :=
  reads_driver_text w argv -> within_err (drv_PassThruGetLastError w).

(** The foreign calls [GetLastWinError] makes. *)
Definition platform_error_calls (w : World) : list call :=
  let err := sys_GetLastError w in
  if err =? 0 then [GetLastError_call]
  else
    GetLastError_call :: FormatMessageA_call err ::
    match snd (sys_FormatMessageA w err) with
    | Some _ => [LocalFree_call]
    | None => []
    end.

(** The text left in [err] after the driver's call, read as a C string. *)
Definition driver_text (w : World) : string :=
  c_str (store (drv_PassThruGetLastError w) (repeat NUL 256)).

(** ** The reports of the specification *)

Definition usage_report : list item :=
  [Literal (c_lit "usage: j2534_native_probe <path-to-j2534-dll>\n")].

Definition load_report (text : string) : list item :=
  [Literal (c_lit "{'status':'error','stage':'load','message':'");
   Text text; Literal (c_lit "'}"); Endl].

Definition symbols_report : list item :=
  [Literal (c_lit "{'status':'error','stage':'symbols','message':'Required J2534 exports missing'}");
   Endl].

Definition open_report (code : long) (text : string) : list item :=
  [Literal (c_lit "{'status':'error','stage':'open','code':"); Number code;
   Literal (c_lit ",'message':'"); Text text; Literal (c_lit "'}"); Endl].

Definition close_report (code : long) : list item :=
  [Literal (c_lit "{'status':'error','stage':'close','code':"); Number code;
   Literal (c_lit ",'message':'PassThruClose failed'}"); Endl].

Definition ok_report : list item :=
  [Literal (c_lit "{'status':'ok','message':'J2534 DLL probe successful'}");
   Endl].

(** The calls every run makes once the library is loaded: the load and the
    three bindings. *)
Definition binding_calls (w : World) (argv : list string) : list call :=
  let lib := loaded_lib w argv in
  [LoadLibraryA_call (dllPath argv);
   GetProcAddress_call lib "PassThruOpen";
   GetProcAddress_call lib "PassThruClose";
   GetProcAddress_call lib "PassThruGetLastError"].

(** ** What two runs have in common

    The behaviour a run observes of the library it is pointed at: whether it
    loads (and, if not, the error text the platform gives), which of the three
    exports resolve, what open and close return, and the driver's error
    text. *)

Inductive load_outcome : Type :=
| Loaded
| LoadFailed (text : string).

Definition observed_load (w : World) (argv : list string) : load_outcome :=
  if is_null (loaded_lib w argv) then LoadFailed (platform_error_text w)
  else Loaded.

Definition observed_symbols (w : World) (argv : list string)
  : bool * bool * bool :=
  (negb (is_null (export w argv "PassThruOpen")),
   negb (is_null (export w argv "PassThruClose")),
   negb (is_null (export w argv "PassThruGetLastError"))).

Definition same_behaviour (w1 w2 : World) (argv : list string) : Prop :=
  observed_load w1 argv = observed_load w2 argv /\
  observed_symbols w1 argv = observed_symbols w2 argv /\
  open_status w1 = open_status w2 /\
  close_status w1 = close_status w2 /\
  driver_c_string w1 = driver_c_string w2.

(** The exit code and the two streams as a function of the observed
    behaviour alone, following the algorithm of the specification step by
    step. *)
Definition outcome_of (has_path : bool) (l : load_outcome)
  (resolved : bool * bool * bool) (open_ret close_ret : long) (text : string)
  : Z * list item * list item :=
  if negb has_path then (2, [], usage_report)
  else
    match l with
    | LoadFailed t => (1, [], load_report t)
    | Loaded =>
        let '(o, c, g) := resolved in
        if negb (o && c && g) then (1, [], symbols_report)
        else if negb (open_ret =? 0) then (1, [], open_report open_ret text)
        else if negb (close_ret =? 0) then (1, [], close_report close_ret)
        else (0, ok_report, [])
    end.

(** ** A test bench

    A world built from a handful of parameters: the handle the one known
    library loads to ([NULL]: it does not load), the exports it lacks, and
    what its open and close entry points return. *)

Definition bench (lib : HMODULE) (absent : list string)
  (open_ret close_ret : long) : World := {|
  sys_LoadLibraryA := fun path =>
    if String.eqb path "op20pt32.dll" then lib else NULL;
  sys_GetLastError := 126;
  sys_FormatMessageA := fun err =>
    if err =? 126 then (40, Some "The specified module could not be found.")
    else (0, None);
  sys_GetProcAddress := fun h name =>
    if existsb (String.eqb name) absent then NULL else h + 4096;
  drv_PassThruOpen := fun slot =>
    if open_ret =? 0 then (open_ret, 1) else (open_ret, slot);
  drv_PassThruGetLastError := "Device not connected";
  drv_PassThruClose := fun _ => close_ret
|}.

Definition probe_argv : list string := ["j2534_native_probe"; "op20pt32.dll"].

(** ** Further readings of a trace and of a text *)

Definition is_lookup_call (c : call) : bool :=
  match c with GetProcAddress_call _ _ => true | _ => false end.
Definition is_release_call (c : call) : bool :=
  match c with FreeLibrary_call _ => true | _ => false end.
Definition is_last_error_call (c : call) : bool :=
  match c with GetLastError_call => true | _ => false end.
Definition is_format_message_call (c : call) : bool :=
  match c with FormatMessageA_call _ => true | _ => false end.
Definition is_local_free_call (c : call) : bool :=
  match c with LocalFree_call => true | _ => false end.

(** A call that needs the library to be loaded: a lookup in it, a call into
    it, or its release. *)
Definition uses_library (c : call) : bool :=
  is_lookup_call c || is_entry_point_call c || is_release_call c.

(** No call that needs the library follows a [FreeLibrary]. *)
Fixpoint no_use_after_release (tr : list call) : bool :=
  match tr with
  | [] => true
  | c :: tr' =>
      (if is_release_call c then negb (existsb uses_library tr') else true)
      && no_use_after_release tr'
  end.

(** How often a character occurs in a text. *)
Fixpoint count_char (a : ascii) (s : string) : nat :=
  match s with
  | EmptyString => O
  | String c t => ((if Ascii.eqb c a then 1 else 0) + count_char a t)%nat
  end.

(** The run-time text of a report: what the [Text] operands hold. *)
Fixpoint inserted_text (l : list item) : string :=
  match l with
  | [] => EmptyString
  | Text s :: l' => (s ++ inserted_text l')%string
  | _ :: l' => inserted_text l'
  end.

(** The stages a report names. *)
Definition stages_reported (l : list item) : list Stage :=
  filter (fun st => has_stage st l) [load; symbols; open; close].

(** A second bench: the library loads to [lib], the platform has [err]
    recorded and translates it to [translated], open returns [open_ret] and
    the driver stores [stored] as its error text. *)
Definition lab (lib : HMODULE) (err : DWORD) (translated : DWORD * LPSTR)
  (open_ret : long) (stored : string) : World := {|
  sys_LoadLibraryA := fun _ => lib;
  sys_GetLastError := err;
  sys_FormatMessageA := fun _ => translated;
  sys_GetProcAddress := fun h _ => h + 64;
  drv_PassThruOpen := fun slot => (open_ret, slot + 1);
  drv_PassThruGetLastError := stored;
  drv_PassThruClose := fun _ => 0
|}.

(** ** Proof steps shared by the path lemmas *)

(** Run [main] symbolically up to its next test. *)
Ltac unfold_main :=
  cbv beta iota zeta delta
    [run main bind ret log insert LoadLibraryA GetProcAddress FreeLibrary
     PassThruOpen PassThruGetLastError PassThruClose start].

Ltac tidy_process := cbn [calls cout cerr app fst snd].

(** Replace the run by what the path lemma [L] says it is. *)
Ltac on_path L :=
  unfold report, stdout_text, stderr_text, exit_code, final;
  rewrite L by assumption; tidy_process.

(** * Properties *)

(** ** Paths through [main] *)

Lemma argc_at_least_2 (argv : list string) :
  (2 <= List.length argv)%nat -> (Z.of_nat (List.length argv) <? 2) = false.
Proof. intros H. apply Z.ltb_ge. lia. Qed.

Lemma is_null_true (p : Z) : p = NULL -> is_null p = true.
Proof. intros ->. reflexivity. Qed.

Lemma is_null_false (p : Z) : p <> NULL -> is_null p = false.
Proof. intros H. now apply Z.eqb_neq. Qed.

Lemma nonzero_test (n : Z) : n <> 0 -> negb (n =? 0) = true.
Proof. intros H. apply negb_true_iff. now apply Z.eqb_neq. Qed.

(** [GetLastWinError] returns the text the specification describes and only
    adds its own calls to the process. *)
Lemma GetLastWinError_spec (w : World) (p : Process) :
  GetLastWinError w p =
  (platform_error_text w,
   {| calls := calls p ++ platform_error_calls w;
      cout := cout p; cerr := cerr p |}).
Proof.
  unfold platform_error_text, translation, platform_error_calls.
  cbv beta iota zeta delta
    [GetLastWinError bind GetLastError FormatMessageA LocalFree log ret
     calls cout cerr].
  destruct (sys_GetLastError w =? 0) eqn:E0; [reflexivity|].
  destruct (sys_FormatMessageA w (sys_GetLastError w)) as [size [chars|]];
    cbn [snd calls cout cerr];
    rewrite <- ?app_assoc; cbn [app];
    destruct (size =? 0); reflexivity.
Qed.

(** No path argument: the usage line, exit code 2, and no foreign call. *)
Lemma run_usage (w : World) (argv : list string) :
  (List.length argv < 2)%nat ->
  run w argv = (2, {| calls := []; cout := []; cerr := usage_report |}).
Proof.
  intros H. unfold_main.
  replace (Z.of_nat (List.length argv) <? 2) with true
    by (symmetry; apply Z.ltb_lt; lia).
  reflexivity.
Qed.

(** The library does not load. *)
Lemma run_load_fails (w : World) (argv : list string) :
  load_fails w argv ->
  run w argv =
  (1, {| calls := LoadLibraryA_call (dllPath argv) :: platform_error_calls w;
         cout := [];
         cerr := load_report (platform_error_text w) |}).
Proof.
  intros [Hargc Hlib]. unfold loaded_lib in Hlib. unfold_main.
  rewrite (argc_at_least_2 _ Hargc), (is_null_true _ Hlib).
  rewrite GetLastWinError_spec. tidy_process. reflexivity.
Qed.

Lemma symbol_test_true (w : World) (argv : list string) :
  symbol_missing w argv ->
  is_null (export w argv "PassThruOpen")
  || is_null (export w argv "PassThruClose")
  || is_null (export w argv "PassThruGetLastError") = true.
Proof.
  intros [H | [H | H]]; rewrite (is_null_true _ H);
    rewrite ?orb_true_r; reflexivity.
Qed.

Lemma symbol_test_false (w : World) (argv : list string) :
  symbols_resolve w argv ->
  is_null (export w argv "PassThruOpen")
  || is_null (export w argv "PassThruClose")
  || is_null (export w argv "PassThruGetLastError") = false.
Proof.
  intros (Ho & Hc & Hg).
  now rewrite (is_null_false _ Ho), (is_null_false _ Hc), (is_null_false _ Hg).
Qed.

(** The library loads and an export is missing. *)
Lemma run_symbol_missing (w : World) (argv : list string) :
  loads w argv -> symbol_missing w argv ->
  run w argv =
  (1, {| calls := binding_calls w argv ++ [FreeLibrary_call (loaded_lib w argv)];
         cout := [];
         cerr := symbols_report |}).
Proof.
  intros [Hargc Hlib] Hsym. apply symbol_test_true in Hsym.
  unfold export, loaded_lib in *. unfold_main.
  rewrite (argc_at_least_2 _ Hargc), (is_null_false _ Hlib), Hsym.
  reflexivity.
Qed.

(** The library loads, the exports resolve and open is refused. *)
Lemma run_open_fails (w : World) (argv : list string) :
  loads w argv -> symbols_resolve w argv -> open_status w <> 0 ->
  run w argv =
  (1, {| calls := binding_calls w argv ++
                  [PassThruOpen_call 0; PassThruGetLastError_call;
                   FreeLibrary_call (loaded_lib w argv)];
         cout := [];
         cerr := open_report (open_status w) (driver_text w) |}).
Proof.
  intros [Hargc Hlib] Hsym Hopen. apply symbol_test_false in Hsym.
  apply nonzero_test in Hopen.
  unfold export, loaded_lib, open_status in *. unfold_main.
  rewrite (argc_at_least_2 _ Hargc), (is_null_false _ Hlib), Hsym.
  destruct (drv_PassThruOpen w 0) as [openStatus deviceId] eqn:E.
  cbn [fst] in Hopen. rewrite Hopen.
  reflexivity.
Qed.

(** Open succeeds and close is refused. *)
Lemma run_close_fails (w : World) (argv : list string) :
  loads w argv -> symbols_resolve w argv ->
  open_status w = 0 -> close_status w <> 0 ->
  run w argv =
  (1, {| calls := binding_calls w argv ++
                  [PassThruOpen_call 0; PassThruClose_call (opened_device w);
                   FreeLibrary_call (loaded_lib w argv)];
         cout := [];
         cerr := close_report (close_status w) |}).
Proof.
  intros [Hargc Hlib] Hsym Hopen Hclose. apply symbol_test_false in Hsym.
  apply nonzero_test in Hclose.
  unfold export, loaded_lib, open_status, close_status, opened_device in *.
  unfold_main.
  rewrite (argc_at_least_2 _ Hargc), (is_null_false _ Hlib), Hsym.
  destruct (drv_PassThruOpen w 0) as [openStatus deviceId] eqn:E.
  cbn [fst snd] in *. subst openStatus. rewrite Hclose.
  reflexivity.
Qed.

(** Open and close both succeed. *)
Lemma run_ok (w : World) (argv : list string) :
  loads w argv -> symbols_resolve w argv ->
  open_status w = 0 -> close_status w = 0 ->
  run w argv =
  (0, {| calls := binding_calls w argv ++
                  [PassThruOpen_call 0; PassThruClose_call (opened_device w);
                   FreeLibrary_call (loaded_lib w argv)];
         cout := ok_report;
         cerr := [] |}).
Proof.
  intros [Hargc Hlib] Hsym Hopen Hclose. apply symbol_test_false in Hsym.
  unfold export, loaded_lib, open_status, close_status, opened_device in *.
  unfold_main.
  rewrite (argc_at_least_2 _ Hargc), (is_null_false _ Hlib), Hsym.
  destruct (drv_PassThruOpen w 0) as [openStatus deviceId] eqn:E.
  cbn [fst snd] in *. subst openStatus. rewrite Hclose.
  reflexivity.
Qed.

(** Every run takes exactly one of the six paths; here, at least one. *)
Lemma run_cases (w : World) (argv : list string) :
  (List.length argv < 2)%nat \/
  load_fails w argv \/
  (loads w argv /\ symbol_missing w argv) \/
  (loads w argv /\ symbols_resolve w argv /\ open_status w <> 0) \/
  (loads w argv /\ symbols_resolve w argv /\
   open_status w = 0 /\ close_status w <> 0) \/
  (loads w argv /\ symbols_resolve w argv /\
   open_status w = 0 /\ close_status w = 0).
Proof.
  destruct (Nat.lt_ge_cases (List.length argv) 2) as [Hlt | Hge]; [now left|].
  right.
  destruct (Z.eq_dec (loaded_lib w argv) NULL) as [Hl | Hl];
    [left; now split|].
  right.
  assert (Hloads : loads w argv) by now split.
  unfold symbol_missing, symbols_resolve.
  destruct (Z.eq_dec (export w argv "PassThruOpen") NULL) as [Ho | Ho];
    [left; auto|].
  destruct (Z.eq_dec (export w argv "PassThruClose") NULL) as [Hc | Hc];
    [left; auto|].
  destruct (Z.eq_dec (export w argv "PassThruGetLastError") NULL) as [Hg | Hg];
    [left; auto|].
  right.
  destruct (Z.eq_dec (open_status w) 0) as [Hop | Hop]; [|left; auto].
  right.
  destruct (Z.eq_dec (close_status w) 0) as [Hcl | Hcl];
    [right | left]; auto 6.
Qed.

(** With a path argument the exit code is 0 or 1. *)
Lemma exit_code_with_path (w : World) (argv : list string) :
  (2 <= List.length argv)%nat -> exit_code w argv = 0 \/ exit_code w argv = 1.
Proof.
  intros Hargc.
  destruct (run_cases w argv)
    as [H | [H | [[Hl H] | [(Hl & Hs & H) | [(Hl & Hs & Ho & H) | (Hl & Hs & Ho & H)]]]]].
  - lia.
  - on_path run_load_fails. now right.
  - on_path run_symbol_missing. now right.
  - on_path run_open_fails. now right.
  - on_path run_close_fails. now right.
  - on_path run_ok. now left.
Qed.

(** A text without [NUL] that leaves room for the terminator is read back
    from the zeroed buffer as it was stored. *)
Lemma c_str_store (s : string) (n : nat) :
  no_NUL s = true -> (String.length s < n)%nat ->
  c_str (store s (repeat NUL n)) = s.
Proof.
  revert n. induction s as [| c t IH]; intros n Hnul Hlen.
  - destruct n as [| n']; [cbn in Hlen; lia | reflexivity].
  - destruct n as [| n']; [cbn in Hlen; lia |].
    cbn in Hnul. apply andb_true_iff in Hnul as [Hc Ht].
    apply negb_true_iff in Hc.
    cbn [repeat store c_str]. rewrite Hc. f_equal.
    apply IH; [assumption | cbn in Hlen; lia].
Qed.

Lemma driver_text_fits (w : World) :
  fits_buffer (drv_PassThruGetLastError w) ->
  driver_text w = drv_PassThruGetLastError w.
Proof. intros [Hnul Hlen]. now apply c_str_store. Qed.

(** [GetLastWinError] calls no entry point of the driver and releases no
    library. *)
Lemma platform_error_calls_quiet (w : World) :
  existsb is_entry_point_call (platform_error_calls w) = false.
Proof.
  unfold platform_error_calls.
  destruct (sys_GetLastError w =? 0); [reflexivity|].
  destruct (snd (sys_FormatMessageA w (sys_GetLastError w))); reflexivity.
Qed.

Lemma platform_error_calls_no_close (w : World) :
  existsb is_close_call (platform_error_calls w) = false.
Proof.
  unfold platform_error_calls.
  destruct (sys_GetLastError w =? 0); [reflexivity|].
  destruct (snd (sys_FormatMessageA w (sys_GetLastError w))); reflexivity.
Qed.

Lemma platform_error_calls_release_nothing (w : World) :
  released (platform_error_calls w) = [].
Proof.
  unfold platform_error_calls.
  destruct (sys_GetLastError w =? 0); [reflexivity|].
  destruct (snd (sys_FormatMessageA w (sys_GetLastError w))); reflexivity.
Qed.

(** Within the bound, what is read back from the buffer is the driver's
    text up to its terminator. *)
Lemma c_str_store_within (s : string) (n : nat) :
  (String.length s <= n)%nat ->
  (String.length s < n)%nat \/ no_NUL s = false ->
  c_str (store s (repeat NUL n)) = until_NUL s.
Proof.
  revert n. induction s as [| c t IH]; intros n Hlen Hterm.
  - destruct n; reflexivity.
  - destruct n as [| n']; [cbn in Hlen; lia |].
    cbn [repeat store c_str until_NUL].
    destruct (Ascii.eqb c NUL) eqn:Hc; [reflexivity|].
    f_equal. apply IH; [cbn in Hlen; lia |].
    destruct Hterm as [Hlt | Hnul].
    + left. cbn in Hlt. lia.
    + right. cbn in Hnul. now rewrite Hc in Hnul.
Qed.

Lemma driver_text_within (w : World) :
  within_err (drv_PassThruGetLastError w) ->
  driver_text w = driver_c_string w.
Proof. intros [Hlen Hterm]. now apply c_str_store_within. Qed.

(** The driver's text matters to the outcome only on the path that reads
    it. *)
Lemma outcome_text_used (has_path : bool) (l : load_outcome)
  (resolved : bool * bool * bool) (open_ret close_ret : long)
  (t1 t2 : string) :
  outcome_of has_path l resolved open_ret close_ret t1 =
  outcome_of has_path l resolved open_ret close_ret t2 \/
  (has_path = true /\ l = Loaded /\ resolved = (true, true, true) /\
   open_ret <> 0).
Proof.
  destruct has_path; [|now left].
  destruct l; [|now left].
  destruct resolved as [[[] []] []]; try (now left).
  destruct (Z.eq_dec open_ret 0) as [-> | Hne]; [now left|].
  now right.
Qed.

Lemma observed_loaded_loads (w : World) (argv : list string) :
  (2 <=? List.length argv)%nat = true -> observed_load w argv = Loaded ->
  loads w argv.
Proof.
  intros Hargc Hobs. split; [now apply Nat.leb_le|].
  unfold observed_load in Hobs. intros Hnull.
  now rewrite (is_null_true _ Hnull) in Hobs.
Qed.

Lemma observed_all_resolve (w : World) (argv : list string) :
  observed_symbols w argv = (true, true, true) -> symbols_resolve w argv.
Proof.
  unfold observed_symbols. intros [= Ho Hc Hg].
  repeat split; intros Hnull; rewrite (is_null_true _ Hnull) in *;
    discriminate.
Qed.

(** ** Sanity checks of the printing functions *)

Example show_long_negative : show_long (-8) = "-8".
Proof. reflexivity. Qed.

Example show_long_zero : show_long 0 = "0".
Proof. reflexivity. Qed.

Example c_lit_quote :
  c_lit "'ok'\n" = String dquote ("ok" ++ String dquote (String newline EmptyString)).
Proof. reflexivity. Qed.

Example c_str_stops_at_NUL :
  c_str (store ("ab" ++ String NUL "cd") (repeat NUL 8)) = "ab".
Proof. reflexivity. Qed.

(** ** The claims *)

(** C1.  In every run in which the library is loaded, [FreeLibrary] is called
    exactly once, on the loaded handle, on whichever path the run leaves
    (missing export, refused open, or after close whatever close returned);
    it is the run's last foreign call, so nothing is released twice and
    nothing is left unreleased at exit.  On the path that asks the driver for
    its error text the driver keeps to the 256 bytes of [err]; a driver that
    writes past them overwrites the frame that holds the handle, and nothing
    can be said of such a run. *)
Theorem handle_released_exactly_once (w : World) (argv : list string) :
  loads w argv ->
  driver_keeps_to_err w argv ->
  released (calls (final w argv)) = [loaded_lib w argv] /\
  exists before,
    calls (final w argv) = before ++ [FreeLibrary_call (loaded_lib w argv)] /\
    released before = [].
Proof.
  intros Hloads Hdriver.
  destruct (run_cases w argv)
    as [H | [H | [[Hl H] | [(Hl & Hs & H) | [(Hl & Hs & Ho & H) | (Hl & Hs & Ho & H)]]]]].
  - destruct Hloads; lia.
  - destruct Hloads as [_ Hne], H as [_ He]. contradiction.
  - on_path run_symbol_missing. split; [reflexivity|].
    exists (binding_calls w argv). split; reflexivity.
  - (* the path that reads the driver's text: here [Hdriver] keeps the run
       within what [store] and [c_str] describe *)
    on_path run_open_fails. split; [reflexivity|].
    exists (binding_calls w argv ++ [PassThruOpen_call 0; PassThruGetLastError_call]).
    split; [now rewrite <- app_assoc | reflexivity].
  - on_path run_close_fails. split; [reflexivity|].
    exists (binding_calls w argv ++
            [PassThruOpen_call 0; PassThruClose_call (opened_device w)]).
    split; [now rewrite <- app_assoc | reflexivity].
  - on_path run_ok. split; [reflexivity|].
    exists (binding_calls w argv ++
            [PassThruOpen_call 0; PassThruClose_call (opened_device w)]).
    split; [now rewrite <- app_assoc | reflexivity].
Qed.

Lemma handle_released_exactly_once_witness :
  reads_driver_text (bench 4096 [] 8 0) probe_argv /\
  within_err (drv_PassThruGetLastError (bench 4096 [] 8 0)) /\
  released (calls (final (bench 4096 [] 8 0) probe_argv)) = [4096].
Proof.
  assert (Hl : loads (bench 4096 [] 8 0) probe_argv)
    by (split; [cbn; lia | discriminate]).
  assert (Hr : reads_driver_text (bench 4096 [] 8 0) probe_argv)
    by (split; [exact Hl | split; [repeat split; discriminate | discriminate]]).
  assert (Hw : within_err (drv_PassThruGetLastError (bench 4096 [] 8 0)))
    by (split; [cbn; lia | left; cbn; lia]).
  split; [exact Hr | split; [exact Hw|]].
  exact (proj1 (handle_released_exactly_once (bench 4096 [] 8 0) probe_argv
                  Hl (fun _ => Hw))).
Defined.

(** C2.  When the library loads, the three exports resolve and open and close
    both return 0, standard output receives exactly the success line,
    standard error receives nothing, and the exit code is 0. *)
Theorem success_report (w : World) (argv : list string) :
  loads w argv -> symbols_resolve w argv ->
  open_status w = 0 -> close_status w = 0 ->
  stdout_text w argv =
    c_lit "{'status':'ok','message':'J2534 DLL probe successful'}\n" /\
  cerr (final w argv) = [] /\
  stderr_text w argv = EmptyString /\
  exit_code w argv = 0.
Proof.
  intros Hl Hs Ho Hc. on_path run_ok. repeat split; reflexivity.
Qed.

Lemma success_report_witness :
  stdout_text (bench 4096 [] 0 0) probe_argv =
    c_lit "{'status':'ok','message':'J2534 DLL probe successful'}\n" /\
  exit_code (bench 4096 [] 0 0) probe_argv = 0.
Proof.
  assert (H : stdout_text (bench 4096 [] 0 0) probe_argv =
                c_lit "{'status':'ok','message':'J2534 DLL probe successful'}\n" /\
              cerr (final (bench 4096 [] 0 0) probe_argv) = [] /\
              stderr_text (bench 4096 [] 0 0) probe_argv = EmptyString /\
              exit_code (bench 4096 [] 0 0) probe_argv = 0).
  { apply (success_report (bench 4096 [] 0 0) probe_argv).
    - split; [cbn; lia | discriminate].
    - repeat split; discriminate.
    - reflexivity.
    - reflexivity. }
  split; [exact (proj1 H) | exact (proj2 (proj2 (proj2 H)))].
Defined.

(** C3, as the code has it.  The numeric [code] field is emitted only in a
    report whose stage is [open] or [close]; the reports of the stages [load]
    and [symbols] and the success report carry no [code] field. *)
Theorem code_field_only_for_open_and_close (w : World) (argv : list string) :
  let r := report w argv in
  (code_field r <> None ->
   has_stage open r = true \/ has_stage close r = true) /\
  (has_stage load r = true -> code_field r = None) /\
  (has_stage symbols r = true -> code_field r = None) /\
  (is_success r = true -> code_field r = None).
Proof.
  destruct (run_cases w argv)
    as [H | [H | [[Hl H] | [(Hl & Hs & H) | [(Hl & Hs & Ho & H) | (Hl & Hs & Ho & H)]]]]].
  - on_path run_usage. repeat split; intros; try reflexivity. now exfalso.
  - on_path run_load_fails. repeat split; intros; try reflexivity. now exfalso.
  - on_path run_symbol_missing. repeat split; intros; try reflexivity. now exfalso.
  - on_path run_open_fails. repeat split; intros; try discriminate. now left.
  - on_path run_close_fails. repeat split; intros; try discriminate. now right.
  - on_path run_ok. repeat split; intros; try reflexivity. now exfalso.
Qed.

(** C3, as the claim states it, fails: when close is refused with status 7
    the report carries [code] 7 and its stage is [close], not [open]. *)
Lemma code_field_in_close_report :
  stderr_text (bench 4096 [] 0 7) probe_argv =
    c_lit "{'status':'error','stage':'close','code':7,'message':'PassThruClose failed'}\n" /\
  code_field (report (bench 4096 [] 0 7) probe_argv) = Some 7 /\
  has_stage close (report (bench 4096 [] 0 7) probe_argv) = true /\
  has_stage open (report (bench 4096 [] 0 7) probe_argv) = false.
Proof. repeat split; vm_compute; reflexivity. Qed.

(** C4.  When the library loads, the exports resolve, open returns a
    non-zero status and the driver keeps its error text within the 256 bytes
    of [err], the run calls the get-last-error entry point, writes to standard
    error one report with stage [open], the [code] field equal to the status
    open returned and the driver's text as message, writes nothing to
    standard output, releases the handle, exits with code 1 and never calls
    the close entry point. *)
Theorem open_failure_report (w : World) (argv : list string) :
  loads w argv -> symbols_resolve w argv -> open_status w <> 0 ->
  within_err (drv_PassThruGetLastError w) ->
  existsb is_get_last_error_call (calls (final w argv)) = true /\
  stderr_text w argv =
    (c_lit "{'status':'error','stage':'open','code':"
     ++ show_long (open_status w)
     ++ c_lit ",'message':'" ++ driver_c_string w ++ c_lit "'}\n")%string /\
  code_field (cerr (final w argv)) = Some (open_status w) /\
  has_stage open (cerr (final w argv)) = true /\
  stdout_text w argv = EmptyString /\
  released (calls (final w argv)) = [loaded_lib w argv] /\
  exit_code w argv = 1 /\
  existsb is_close_call (calls (final w argv)) = false.
Proof.
  intros Hl Hs Ho Hwithin. on_path run_open_fails.
  rewrite (driver_text_within w Hwithin).
  repeat split; reflexivity.
Qed.

Lemma open_failure_report_witness :
  open_status (bench 4096 [] 8 0) <> 0 /\
  within_err (drv_PassThruGetLastError (bench 4096 [] 8 0)) /\
  stderr_text (bench 4096 [] 8 0) probe_argv =
    c_lit "{'status':'error','stage':'open','code':8,'message':'Device not connected'}\n" /\
  exit_code (bench 4096 [] 8 0) probe_argv = 1.
Proof.
  assert (Ho : open_status (bench 4096 [] 8 0) <> 0) by discriminate.
  assert (Hl : loads (bench 4096 [] 8 0) probe_argv)
    by (split; [cbn; lia | discriminate]).
  assert (Hs : symbols_resolve (bench 4096 [] 8 0) probe_argv)
    by (repeat split; discriminate).
  assert (Hw : within_err (drv_PassThruGetLastError (bench 4096 [] 8 0)))
    by (split; [cbn; lia | left; cbn; lia]).
  pose proof (open_failure_report (bench 4096 [] 8 0) probe_argv Hl Hs Ho Hw)
    as (_ & Herr & _ & _ & _ & _ & Hexit & _).
  split; [exact Ho | split; [exact Hw | split; assumption]].
Defined.

(** C5.  When open returns 0 and close returns a non-zero status, standard
    error receives one report with stage [close], the [code] field equal to
    the status close returned and the fixed message, the get-last-error entry
    point is not called, and the exit code is 1. *)
Theorem close_failure_report (w : World) (argv : list string) :
  loads w argv -> symbols_resolve w argv ->
  open_status w = 0 -> close_status w <> 0 ->
  stderr_text w argv =
    (c_lit "{'status':'error','stage':'close','code':"
     ++ show_long (close_status w)
     ++ c_lit ",'message':'PassThruClose failed'}\n")%string /\
  code_field (cerr (final w argv)) = Some (close_status w) /\
  has_stage close (cerr (final w argv)) = true /\
  stdout_text w argv = EmptyString /\
  existsb is_get_last_error_call (calls (final w argv)) = false /\
  exit_code w argv = 1.
Proof.
  intros Hl Hs Ho Hc. on_path run_close_fails.
  repeat split; reflexivity.
Qed.

Lemma close_failure_report_witness :
  close_status (bench 4096 [] 0 (-3)) <> 0 /\
  stderr_text (bench 4096 [] 0 (-3)) probe_argv =
    c_lit "{'status':'error','stage':'close','code':-3,'message':'PassThruClose failed'}\n" /\
  exit_code (bench 4096 [] 0 (-3)) probe_argv = 1.
Proof.
  assert (Hc : close_status (bench 4096 [] 0 (-3)) <> 0) by discriminate.
  assert (Hl : loads (bench 4096 [] 0 (-3)) probe_argv)
    by (split; [cbn; lia | discriminate]).
  assert (Hs : symbols_resolve (bench 4096 [] 0 (-3)) probe_argv)
    by (repeat split; discriminate).
  pose proof (close_failure_report (bench 4096 [] 0 (-3)) probe_argv
                Hl Hs eq_refl Hc) as (Herr & _ & _ & _ & _ & Hexit).
  repeat split; assumption.
Defined.

(** C6.  When the library loads and one of the exports [PassThruOpen],
    [PassThruClose], [PassThruGetLastError] (looked up by exactly these names)
    does not resolve, standard error receives the fixed report of stage
    [symbols], the handle is released, the exit code is 1, and none of the
    entry points is called: after the load the run makes the three lookups
    and the release, nothing else. *)
Theorem missing_export_report (w : World) (argv : list string) :
  loads w argv -> symbol_missing w argv ->
  stderr_text w argv =
    c_lit "{'status':'error','stage':'symbols','message':'Required J2534 exports missing'}\n" /\
  stdout_text w argv = EmptyString /\
  calls (final w argv) =
    [LoadLibraryA_call (dllPath argv);
     GetProcAddress_call (loaded_lib w argv) "PassThruOpen";
     GetProcAddress_call (loaded_lib w argv) "PassThruClose";
     GetProcAddress_call (loaded_lib w argv) "PassThruGetLastError";
     FreeLibrary_call (loaded_lib w argv)] /\
  released (calls (final w argv)) = [loaded_lib w argv] /\
  existsb is_entry_point_call (calls (final w argv)) = false /\
  exit_code w argv = 1.
Proof.
  intros Hl Hs. on_path run_symbol_missing.
  repeat split; reflexivity.
Qed.

Lemma missing_export_report_witness :
  symbol_missing (bench 4096 ["PassThruClose"] 0 0) probe_argv /\
  stderr_text (bench 4096 ["PassThruClose"] 0 0) probe_argv =
    c_lit "{'status':'error','stage':'symbols','message':'Required J2534 exports missing'}\n" /\
  exit_code (bench 4096 ["PassThruClose"] 0 0) probe_argv = 1.
Proof.
  assert (Hs : symbol_missing (bench 4096 ["PassThruClose"] 0 0) probe_argv)
    by (right; left; reflexivity).
  assert (Hl : loads (bench 4096 ["PassThruClose"] 0 0) probe_argv)
    by (split; [cbn; lia | discriminate]).
  pose proof (missing_export_report (bench 4096 ["PassThruClose"] 0 0)
                probe_argv Hl Hs) as (Herr & _ & _ & _ & _ & Hexit).
  repeat split; assumption.
Defined.

(** C7.  When loading the library fails, standard error receives one report
    with stage [load] whose message is the platform's last-error text: the
    translation of the recorded error, [unknown] when the translation yields
    nothing, [none] when no error was recorded.  Standard output stays empty,
    the exit code is 1, and the run neither calls the close entry point nor
    releases a handle. *)
Theorem load_failure_report (w : World) (argv : list string) :
  load_fails w argv ->
  stderr_text w argv =
    (c_lit "{'status':'error','stage':'load','message':'"
     ++ platform_error_text w ++ c_lit "'}\n")%string /\
  has_stage load (cerr (final w argv)) = true /\
  stdout_text w argv = EmptyString /\
  exit_code w argv = 1 /\
  existsb is_close_call (calls (final w argv)) = false /\
  existsb is_entry_point_call (calls (final w argv)) = false /\
  released (calls (final w argv)) = [].
Proof.
  intros Hf. on_path run_load_fails.
  cbn [existsb released is_entry_point_call is_open_call is_close_call
       is_get_last_error_call orb].
  rewrite platform_error_calls_quiet, platform_error_calls_no_close,
    platform_error_calls_release_nothing.
  repeat split; reflexivity.
Qed.

Lemma load_failure_report_witness :
  load_fails (bench NULL [] 0 0) probe_argv /\
  stderr_text (bench NULL [] 0 0) probe_argv =
    c_lit "{'status':'error','stage':'load','message':'The specified module could not be found.'}\n" /\
  exit_code (bench NULL [] 0 0) probe_argv = 1.
Proof.
  assert (Hf : load_fails (bench NULL [] 0 0) probe_argv)
    by (split; [cbn; lia | reflexivity]).
  pose proof (load_failure_report (bench NULL [] 0 0) probe_argv Hf)
    as (Herr & _ & _ & Hexit & _).
  split; [exact Hf | split; assumption].
Defined.

(** C8.  Without a path argument the run writes the plain usage line to
    standard error, nothing to standard output, makes no foreign call and
    exits with code 2; every run that has a path argument exits with 0 or 1,
    so 2 is returned for nothing else. *)
Theorem usage_error (w : World) (argv : list string) :
  (List.length argv < 2)%nat ->
  stderr_text w argv =
    c_lit "usage: j2534_native_probe <path-to-j2534-dll>\n" /\
  stdout_text w argv = EmptyString /\
  calls (final w argv) = [] /\
  exit_code w argv = 2 /\
  (forall w' argv', (2 <= List.length argv')%nat ->
     exit_code w' argv' = 0 \/ exit_code w' argv' = 1).
Proof.
  intros Hargc. on_path run_usage.
  repeat split; try reflexivity.
  apply exit_code_with_path.
Qed.

Lemma usage_error_witness :
  stderr_text (bench 4096 [] 0 0) ["j2534_native_probe"] =
    c_lit "usage: j2534_native_probe <path-to-j2534-dll>\n" /\
  exit_code (bench 4096 [] 0 0) ["j2534_native_probe"] = 2.
Proof.
  assert (Hargc : (List.length ["j2534_native_probe"] < 2)%nat) by (cbn; lia).
  pose proof (usage_error (bench 4096 [] 0 0) ["j2534_native_probe"] Hargc)
    as (Herr & _ & _ & Hexit & _).
  split; assumption.
Defined.

(** The exit code and both streams of a run are determined by the behaviour
    the run observes. *)
Lemma run_outcome (w : World) (argv : list string) :
  (exit_code w argv, cout (final w argv), cerr (final w argv)) =
  outcome_of (2 <=? List.length argv)%nat (observed_load w argv)
    (observed_symbols w argv) (open_status w) (close_status w) (driver_text w).
Proof.
  assert (Hpath : loads w argv \/ load_fails w argv ->
                  (2 <=? List.length argv)%nat = true).
  { intros [[Hargc _] | [Hargc _]]; now apply Nat.leb_le. }
  assert (Hloaded : loads w argv -> observed_load w argv = Loaded).
  { intros [_ Hlib]. unfold observed_load. now rewrite (is_null_false _ Hlib). }
  assert (Hres : symbols_resolve w argv ->
                 observed_symbols w argv = (true, true, true)).
  { intros (Ho & Hc & Hg). unfold observed_symbols.
    now rewrite (is_null_false _ Ho), (is_null_false _ Hc), (is_null_false _ Hg). }
  destruct (run_cases w argv)
    as [H | [H | [[Hl H] | [(Hl & Hs & H) | [(Hl & Hs & Ho & H) | (Hl & Hs & Ho & H)]]]]].
  - on_path run_usage.
    apply Nat.leb_gt in H. now rewrite H.
  - rewrite (Hpath (or_intror H)).
    on_path run_load_fails.
    destruct H as [_ Hlib]. unfold observed_load.
    now rewrite (is_null_true _ Hlib).
  - rewrite (Hpath (or_introl Hl)).
    on_path run_symbol_missing. rewrite (Hloaded Hl).
    apply symbol_test_true in H. unfold observed_symbols.
    destruct (is_null (export w argv "PassThruOpen")),
             (is_null (export w argv "PassThruClose")),
             (is_null (export w argv "PassThruGetLastError"));
      try discriminate H; reflexivity.
  - rewrite (Hpath (or_introl Hl)).
    on_path run_open_fails. rewrite (Hloaded Hl), (Hres Hs).
    cbn [outcome_of negb andb]. now rewrite (nonzero_test _ H).
  - rewrite (Hpath (or_introl Hl)).
    on_path run_close_fails. rewrite (Hloaded Hl), (Hres Hs), Ho.
    cbn [outcome_of negb andb Z.eqb]. now rewrite (nonzero_test _ H).
  - rewrite (Hpath (or_introl Hl)).
    on_path run_ok. rewrite (Hloaded Hl), (Hres Hs), Ho, H.
    reflexivity.
Qed.

(** C9.  Two runs with the same arguments that observe the same behaviour
    (the same load outcome, the same exports resolved, the same open and close
    statuses, the same driver error text) write the same text to the same
    stream and exit with the same code.  In each run the driver, if asked for
    its error text, keeps to the 256 bytes of [err]; past them the output
    depends on what lies behind the buffer. *)
Theorem probe_deterministic (w1 w2 : World) (argv : list string) :
  same_behaviour w1 w2 argv ->
  driver_keeps_to_err w1 argv -> driver_keeps_to_err w2 argv ->
  stdout_text w1 argv = stdout_text w2 argv /\
  stderr_text w1 argv = stderr_text w2 argv /\
  exit_code w1 argv = exit_code w2 argv.
Proof.
  intros (Hload & Hsym & Hopen & Hclose & Htext) Hd1 Hd2.
  pose proof (run_outcome w1 argv) as H1.
  pose proof (run_outcome w2 argv) as H2.
  rewrite <- Hload, <- Hsym, <- Hopen, <- Hclose in H2.
  assert (Hsame :
    outcome_of (2 <=? List.length argv)%nat (observed_load w1 argv)
      (observed_symbols w1 argv) (open_status w1) (close_status w1)
      (driver_text w1) =
    outcome_of (2 <=? List.length argv)%nat (observed_load w1 argv)
      (observed_symbols w1 argv) (open_status w1) (close_status w1)
      (driver_text w2)).
  { destruct (outcome_text_used (2 <=? List.length argv)%nat
                (observed_load w1 argv) (observed_symbols w1 argv)
                (open_status w1) (close_status w1)
                (driver_text w1) (driver_text w2))
      as [E | (Hp & Hl & Hr & Ho)]; [exact E|].
    assert (R1 : reads_driver_text w1 argv).
    { split; [now apply observed_loaded_loads|].
      split; [now apply observed_all_resolve | exact Ho]. }
    assert (R2 : reads_driver_text w2 argv).
    { rewrite Hload in Hl. rewrite Hsym in Hr. rewrite Hopen in Ho.
      split; [now apply observed_loaded_loads|].
      split; [now apply observed_all_resolve | exact Ho]. }
    rewrite (driver_text_within w1 (Hd1 R1)), (driver_text_within w2 (Hd2 R2)).
    now rewrite Htext. }
  rewrite Hsame, <- H2 in H1.
  injection H1 as Hexit Hout Herr.
  unfold stdout_text, stderr_text.
  now rewrite Hout, Herr, Hexit.
Qed.

Lemma probe_deterministic_witness :
  same_behaviour (bench 4096 [] 8 0) (bench 8192 [] 8 0) probe_argv /\
  reads_driver_text (bench 4096 [] 8 0) probe_argv /\
  within_err (drv_PassThruGetLastError (bench 4096 [] 8 0)) /\
  stderr_text (bench 4096 [] 8 0) probe_argv =
  stderr_text (bench 8192 [] 8 0) probe_argv.
Proof.
  assert (H : same_behaviour (bench 4096 [] 8 0) (bench 8192 [] 8 0) probe_argv)
    by (repeat split; reflexivity).
  assert (Hr : reads_driver_text (bench 4096 [] 8 0) probe_argv).
  { split; [split; [cbn; lia | discriminate]|].
    split; [repeat split; discriminate | discriminate]. }
  assert (Hw1 : within_err (drv_PassThruGetLastError (bench 4096 [] 8 0)))
    by (split; [cbn; lia | left; cbn; lia]).
  assert (Hw2 : within_err (drv_PassThruGetLastError (bench 8192 [] 8 0)))
    by (split; [cbn; lia | left; cbn; lia]).
  split; [exact H | split; [exact Hr | split; [exact Hw1|]]].
  exact (proj1 (proj2 (probe_deterministic _ _ probe_argv H
                         (fun _ => Hw1) (fun _ => Hw2)))).
Defined.

(** C10.  Arguments after the path are ignored: a run with further arguments
    is the run with the path alone, call for call and character for
    character; it is not treated as a usage error (its exit code is not 2)
    and it starts by loading the library named by the first argument. *)
Theorem extra_arguments_ignored
  (w : World) (prog path extra : string) (more : list string) :
  run w (prog :: path :: extra :: more) = run w [prog; path] /\
  exit_code w (prog :: path :: extra :: more) <> 2 /\
  hd_error (calls (final w (prog :: path :: extra :: more))) =
    Some (LoadLibraryA_call path).
Proof.
  assert (Hlong : (2 <= List.length (prog :: path :: extra :: more))%nat)
    by (cbn [List.length]; lia).
  split; [|split].
  - unfold run, main.
    rewrite (argc_at_least_2 _ Hlong).
    rewrite (argc_at_least_2 [prog; path]) by (cbn [List.length]; lia).
    reflexivity.
  - destruct (exit_code_with_path w _ Hlong) as [-> | ->]; discriminate.
  - destruct (run_cases w (prog :: path :: extra :: more))
      as [H | [H | [[Hl H] | [(Hl & Hs & H) | [(Hl & Hs & Ho & H) | (Hl & Hs & Ho & H)]]]]].
    + lia.
    + on_path run_load_fails. reflexivity.
    + on_path run_symbol_missing. reflexivity.
    + on_path run_open_fails. reflexivity.
    + on_path run_close_fails. reflexivity.
    + on_path run_ok. reflexivity.
Qed.

(** * Further properties of the program *)

(** ** Helper facts on texts *)

Lemma count_char_append (a : ascii) (s t : string) :
  count_char a (s ++ t) = (count_char a s + count_char a t)%nat.
Proof.
  induction s as [| c s IH]; [reflexivity|].
  cbn [append count_char]. rewrite IH. lia.
Qed.

Lemma digits_hold_no_newline (d : Decimal.uint) :
  count_char newline (NilEmpty.string_of_uint d) = O.
Proof. induction d; cbn [NilEmpty.string_of_uint count_char]; auto. Qed.

Lemma show_long_holds_no_newline (n : long) :
  count_char newline (show_long n) = O.
Proof.
  unfold show_long, NilZero.string_of_int, NilZero.string_of_uint.
  destruct (Z.to_int n) as [d | d]; destruct d;
    try reflexivity; apply digits_hold_no_newline.
Qed.

Lemma length_append (s t : string) :
  String.length (s ++ t) = (String.length s + String.length t)%nat.
Proof. induction s as [| c s IH]; [reflexivity|]. cbn. now rewrite IH. Qed.

Lemma append_cancel_left (a s t : string) :
  (a ++ s)%string = (a ++ t)%string -> s = t.
Proof.
  induction a as [| c a IH]; [trivial|].
  cbn [append]. intros [= H]. now apply IH.
Qed.

Lemma append_cancel_right (b s t : string) :
  (s ++ b)%string = (t ++ b)%string -> s = t.
Proof.
  revert t. induction s as [| c s IH]; intros [| c' t] H.
  - reflexivity.
  - apply (f_equal String.length) in H. cbn in H.
    rewrite length_append in H. lia.
  - apply (f_equal String.length) in H. cbn in H.
    rewrite length_append in H. lia.
  - cbn [append] in H. injection H as -> H. f_equal. now apply IH.
Qed.

Lemma show_long_injective (n m : long) : show_long n = show_long m -> n = m.
Proof.
  assert (Hproper : forall z, Z.to_int z <> Decimal.Pos Decimal.Nil /\
                              Z.to_int z <> Decimal.Neg Decimal.Nil).
  { intros [| p | p]; cbn; split; try discriminate;
      intros [= H]; now apply DecimalPos.Unsigned.to_uint_nonnil in H. }
  unfold show_long. intros H.
  apply (f_equal NilZero.int_of_string) in H.
  destruct (Hproper n) as [Hn1 Hn2], (Hproper m) as [Hm1 Hm2].
  rewrite !NilZero.isi in H by assumption.
  injection H as H. now apply DecimalZ.to_int_inj.
Qed.

Lemma substring_prefix (text rest : string) :
  substring 0 (String.length text) (text ++ rest) = text.
Proof.
  induction text as [| c t IH]; cbn.
  - now destruct rest.
  - now rewrite IH.
Qed.

(** A text stored with its terminator is read back without what follows the
    terminator. *)
Lemma c_str_store_terminated (text rest : string) (n : nat) :
  no_NUL text = true -> (String.length text < n)%nat ->
  c_str (store (text ++ String NUL rest) (repeat NUL n)) = text.
Proof.
  revert n. induction text as [| c t IH]; intros n Hnul Hlen.
  - destruct n as [| n']; [cbn in Hlen; lia | reflexivity].
  - destruct n as [| n']; [cbn in Hlen; lia |].
    cbn in Hnul. apply andb_true_iff in Hnul as [Hc Ht].
    apply negb_true_iff in Hc.
    cbn [append repeat store c_str]. rewrite Hc. f_equal.
    apply IH; [assumption | cbn in Hlen; lia].
Qed.

(** ** One report, one stream *)

(** X1.  Every run writes to exactly one of the two streams: a run that
    returns 0 wrote the success report to [std::cout] and nothing to
    [std::cerr]; any other run wrote nothing to [std::cout] and something to
    [std::cerr]. *)
Theorem one_stream_per_run (w : World) (argv : list string) :
  (exit_code w argv = 0 /\
   cout (final w argv) = ok_report /\ cerr (final w argv) = []) \/
  (exit_code w argv <> 0 /\
   cout (final w argv) = [] /\ cerr (final w argv) <> []).
Proof.
  destruct (run_cases w argv)
    as [H | [H | [[Hl H] | [(Hl & Hs & H) | [(Hl & Hs & Ho & H) | (Hl & Hs & Ho & H)]]]]].
  - on_path run_usage. right. repeat split; discriminate.
  - on_path run_load_fails. right. repeat split; discriminate.
  - on_path run_symbol_missing. right. repeat split; discriminate.
  - on_path run_open_fails. right. repeat split; discriminate.
  - on_path run_close_fails. right. repeat split; discriminate.
  - on_path run_ok. left. repeat split; reflexivity.
Qed.

(** X2.  [main] returns 0 exactly when a path argument is present, the
    library loads, all three exports resolve, and open and close both return
    0. *)
Theorem exit_zero_iff_all_steps_pass (w : World) (argv : list string) :
  exit_code w argv = 0 <->
  loads w argv /\ symbols_resolve w argv /\
  open_status w = 0 /\ close_status w = 0.
Proof.
  split.
  - destruct (run_cases w argv)
      as [H | [H | [[Hl H] | [(Hl & Hs & H) | [(Hl & Hs & Ho & H) | (Hl & Hs & Ho & H)]]]]].
    + on_path run_usage. discriminate.
    + on_path run_load_fails. discriminate.
    + on_path run_symbol_missing. discriminate.
    + on_path run_open_fails. discriminate.
    + on_path run_close_fails. discriminate.
    + auto.
  - intros (Hl & Hs & Ho & Hc). on_path run_ok. reflexivity.
Qed.

(** X3.  A run that returns 1 names exactly one stage in its report, a run
    that returns 0 or 2 names none; the report says [ok] exactly when the run
    returns 0. *)
Theorem one_stage_per_failure (w : World) (argv : list string) :
  List.length (stages_reported (report w argv)) =
    (if exit_code w argv =? 1 then 1%nat else 0%nat) /\
  is_success (report w argv) = (exit_code w argv =? 0).
Proof.
  destruct (run_cases w argv)
    as [H | [H | [[Hl H] | [(Hl & Hs & H) | [(Hl & Hs & Ho & H) | (Hl & Hs & Ho & H)]]]]].
  - on_path run_usage. split; reflexivity.
  - on_path run_load_fails. split; reflexivity.
  - on_path run_symbol_missing. split; reflexivity.
  - on_path run_open_fails. split; reflexivity.
  - on_path run_close_fails. split; reflexivity.
  - on_path run_ok. split; reflexivity.
Qed.

(** ** The library is used only while it is loaded *)

(** X4.  In no run does a lookup in the library, a call into the driver or a
    second release follow [FreeLibrary]. *)
Theorem library_not_used_after_release (w : World) (argv : list string) :
  no_use_after_release (calls (final w argv)) = true.
Proof.
  destruct (run_cases w argv)
    as [H | [H | [[Hl H] | [(Hl & Hs & H) | [(Hl & Hs & Ho & H) | (Hl & Hs & Ho & H)]]]]].
  - on_path run_usage. reflexivity.
  - on_path run_load_fails. cbn [no_use_after_release is_release_call andb].
    unfold platform_error_calls.
    destruct (sys_GetLastError w =? 0); [reflexivity|].
    destruct (snd (sys_FormatMessageA w (sys_GetLastError w))); reflexivity.
  - on_path run_symbol_missing. reflexivity.
  - on_path run_open_fails. reflexivity.
  - on_path run_close_fails. reflexivity.
  - on_path run_ok. reflexivity.
Qed.

(** X5.  The driver is entered only through pointers that resolved: if a
    run calls any of the three entry points, the library was loaded and all
    three exports were found. *)
Theorem entry_points_need_all_exports (w : World) (argv : list string) :
  existsb is_entry_point_call (calls (final w argv)) = true ->
  loads w argv /\ symbols_resolve w argv.
Proof.
  destruct (run_cases w argv)
    as [H | [H | [[Hl H] | [(Hl & Hs & H) | [(Hl & Hs & Ho & H) | (Hl & Hs & Ho & H)]]]]];
    try (intros _; split; assumption).
  - on_path run_usage. discriminate.
  - on_path run_load_fails.
    cbn [existsb is_entry_point_call is_open_call is_close_call
         is_get_last_error_call orb].
    rewrite platform_error_calls_quiet. discriminate.
  - on_path run_symbol_missing. discriminate.
Qed.

Lemma entry_points_need_all_exports_witness :
  existsb is_entry_point_call
    (calls (final (bench 4096 [] 8 0) probe_argv)) = true /\
  symbols_resolve (bench 4096 [] 8 0) probe_argv.
Proof.
  assert (H : existsb is_entry_point_call
                (calls (final (bench 4096 [] 8 0) probe_argv)) = true)
    by reflexivity.
  split; [exact H|].
  exact (proj2 (entry_points_need_all_exports _ probe_argv H)).
Defined.

(** X6.  Close is called only after open returned 0, and with the device id
    open left in the slot; open itself is always handed a slot holding 0. *)
Theorem close_gets_the_opened_device
  (w : World) (argv : list string) (d : ulong) :
  In (PassThruClose_call d) (calls (final w argv)) ->
  open_status w = 0 /\ d = opened_device w /\
  In (PassThruOpen_call 0) (calls (final w argv)).
Proof.
  destruct (run_cases w argv)
    as [H | [H | [[Hl H] | [(Hl & Hs & H) | [(Hl & Hs & Ho & H) | (Hl & Hs & Ho & H)]]]]].
  - on_path run_usage. intros [].
  - on_path run_load_fails. intros [Hin | Hin]; [discriminate|].
    exfalso. pose proof (platform_error_calls_no_close w) as Hq.
    apply not_true_iff_false in Hq. apply Hq.
    apply existsb_exists. now exists (PassThruClose_call d).
  - on_path run_symbol_missing. cbn. intuition discriminate.
  - on_path run_open_fails. cbn. intuition discriminate.
  - on_path run_close_fails. cbn.
    intros [Hin | [Hin | [Hin | [Hin | [Hin | [Hin | [Hin | []]]]]]]];
      try discriminate Hin.
    injection Hin as <-. auto 8.
  - on_path run_ok. cbn.
    intros [Hin | [Hin | [Hin | [Hin | [Hin | [Hin | [Hin | []]]]]]]];
      try discriminate Hin.
    injection Hin as <-. auto 8.
Qed.

Lemma close_gets_the_opened_device_witness :
  In (PassThruClose_call 1) (calls (final (bench 4096 [] 0 5) probe_argv)) /\
  opened_device (bench 4096 [] 0 5) = 1.
Proof.
  assert (H : In (PassThruClose_call 1)
                (calls (final (bench 4096 [] 0 5) probe_argv)))
    by (cbn; auto 8).
  split; [exact H|].
  symmetry.
  exact (proj1 (proj2 (close_gets_the_opened_device _ probe_argv 1 H))).
Defined.

(** ** The platform's error text *)

(** X7.  [GetLastWinError] leaves both streams alone and only adds calls.
    It asks for a translation exactly when an error is recorded, and it
    frees the buffer exactly when [FormatMessageA] handed one back, also when
    the reported size is 0. *)
Theorem GetLastWinError_frees_its_buffer (w : World) (p : Process) :
  let p' := snd (GetLastWinError w p) in
  cout p' = cout p /\ cerr p' = cerr p /\
  exists added,
    calls p' = calls p ++ added /\
    existsb uses_library added = false /\
    List.length (filter is_format_message_call added) =
      (if sys_GetLastError w =? 0 then 0%nat else 1%nat) /\
    List.length (filter is_local_free_call added) =
      (if sys_GetLastError w =? 0 then 0%nat
       else match snd (sys_FormatMessageA w (sys_GetLastError w)) with
            | Some _ => 1%nat
            | None => 0%nat
            end).
Proof.
  rewrite GetLastWinError_spec. cbn [snd cout cerr calls].
  split; [reflexivity|]. split; [reflexivity|].
  exists (platform_error_calls w). split; [reflexivity|].
  unfold platform_error_calls.
  destruct (sys_GetLastError w =? 0); [repeat split; reflexivity|].
  destruct (snd (sys_FormatMessageA w (sys_GetLastError w)));
    repeat split; reflexivity.
Qed.

(** X8.  A translated message is cut at the count [FormatMessageA] returned:
    when the buffer holds [text] followed by further characters and the count
    is the length of [text], the load report prints [text] and nothing of what
    follows it. *)
Theorem load_message_is_cut_at_size
  (w : World) (argv : list string) (text rest : string) :
  load_fails w argv ->
  sys_GetLastError w <> 0 ->
  text <> EmptyString ->
  sys_FormatMessageA w (sys_GetLastError w) =
    (Z.of_nat (String.length text), Some (text ++ rest)%string) ->
  stderr_text w argv =
    (c_lit "{'status':'error','stage':'load','message':'"
     ++ text ++ c_lit "'}\n")%string.
Proof.
  intros Hf Herr Htext Hfm. on_path run_load_fails.
  unfold platform_error_text, translation. rewrite Hfm.
  apply Z.eqb_neq in Herr. rewrite Herr.
  assert (Hsize : (Z.of_nat (String.length text) =? 0) = false).
  { apply Z.eqb_neq. destruct text; [congruence | cbn [String.length]; lia]. }
  rewrite Hsize, Nat2Z.id, substring_prefix. reflexivity.
Qed.

Lemma load_message_is_cut_at_size_witness :
  stderr_text
    (lab NULL 5 (17, Some "Access is denied.<stale bytes>") 0 EmptyString)
    probe_argv =
  c_lit "{'status':'error','stage':'load','message':'Access is denied.'}\n".
Proof.
  apply (load_message_is_cut_at_size
           (lab NULL 5 (17, Some "Access is denied.<stale bytes>") 0 EmptyString)
           probe_argv "Access is denied." "<stale bytes>").
  - split; [cbn; lia | reflexivity].
  - discriminate.
  - discriminate.
  - reflexivity.
Defined.

(** ** The driver's error text *)

(** X9.  The open report prints the driver's text up to its terminator:
    when the driver stores [text], a [NUL] and further bytes, all within the
    256 bytes of [err], the message is [text]. *)
Theorem open_message_stops_at_terminator
  (w : World) (argv : list string) (text rest : string) :
  loads w argv -> symbols_resolve w argv -> open_status w <> 0 ->
  no_NUL text = true ->
  (String.length text + 1 + String.length rest <= 256)%nat ->
  drv_PassThruGetLastError w = (text ++ String NUL rest)%string ->
  stderr_text w argv =
    (c_lit "{'status':'error','stage':'open','code':"
     ++ show_long (open_status w)
     ++ c_lit ",'message':'" ++ text ++ c_lit "'}\n")%string.
Proof.
  intros Hl Hs Ho Hnul Hlen Hdrv. on_path run_open_fails.
  unfold driver_text. rewrite Hdrv.
  rewrite c_str_store_terminated by (assumption || lia).
  reflexivity.
Qed.

Lemma open_message_stops_at_terminator_witness :
  stderr_text
    (lab 4096 0 (0, None) 9 ("No device" ++ String NUL "left over")) probe_argv =
  c_lit "{'status':'error','stage':'open','code':9,'message':'No device'}\n".
Proof.
  apply (open_message_stops_at_terminator
           (lab 4096 0 (0, None) 9 ("No device" ++ String NUL "left over"))
           probe_argv "No device" "left over").
  - split; [cbn; lia | discriminate].
  - repeat split; discriminate.
  - discriminate.
  - reflexivity.
  - cbn; lia.
  - reflexivity.
Defined.

(** X10.  The platform's last error is read exactly in the runs whose load
    fails; in particular a refused open or close never consults it. *)
Theorem last_error_read_only_when_load_fails (w : World) (argv : list string) :
  existsb is_last_error_call (calls (final w argv)) = true <->
  load_fails w argv.
Proof.
  assert (Hnot : loads w argv -> ~ load_fails w argv).
  { intros [_ Hne] [_ He]. contradiction. }
  destruct (run_cases w argv)
    as [H | [H | [[Hl H] | [(Hl & Hs & H) | [(Hl & Hs & Ho & H) | (Hl & Hs & Ho & H)]]]]].
  - on_path run_usage. split; [discriminate | intros [Hargc _]; lia].
  - on_path run_load_fails. split; [trivial | intros _].
    unfold platform_error_calls.
    destruct (sys_GetLastError w =? 0); reflexivity.
  - on_path run_symbol_missing.
    split; [discriminate | intros Hf; now apply Hnot in Hf].
  - on_path run_open_fails.
    split; [discriminate | intros Hf; now apply Hnot in Hf].
  - on_path run_close_fails.
    split; [discriminate | intros Hf; now apply Hnot in Hf].
  - on_path run_ok.
    split; [discriminate | intros Hf; now apply Hnot in Hf].
Qed.

(** ** The sequence of calls *)

(** X11.  A run whose load succeeds looks up all three exports, in the order
    open, close, get-last-error, each on the loaded handle, whether or not an
    earlier lookup failed; a run without a path argument or whose load fails
    makes no lookup. *)
Theorem three_lookups_on_the_loaded_handle (w : World) (argv : list string) :
  filter is_lookup_call (calls (final w argv)) =
  if (2 <=? List.length argv)%nat && negb (is_null (loaded_lib w argv))
  then [GetProcAddress_call (loaded_lib w argv) "PassThruOpen";
        GetProcAddress_call (loaded_lib w argv) "PassThruClose";
        GetProcAddress_call (loaded_lib w argv) "PassThruGetLastError"]
  else [].
Proof.
  assert (Hloads : loads w argv ->
            (2 <=? List.length argv)%nat
            && negb (is_null (loaded_lib w argv)) = true).
  { intros [Hargc Hlib]. apply Nat.leb_le in Hargc.
    now rewrite Hargc, (is_null_false _ Hlib). }
  destruct (run_cases w argv)
    as [H | [H | [[Hl H] | [(Hl & Hs & H) | [(Hl & Hs & Ho & H) | (Hl & Hs & Ho & H)]]]]].
  - on_path run_usage. apply Nat.leb_gt in H. now rewrite H.
  - on_path run_load_fails. destruct H as [_ Hlib].
    rewrite (is_null_true _ Hlib), andb_false_r.
    cbn [filter is_lookup_call]. unfold platform_error_calls.
    destruct (sys_GetLastError w =? 0); [reflexivity|].
    destruct (snd (sys_FormatMessageA w (sys_GetLastError w))); reflexivity.
  - on_path run_symbol_missing. now rewrite (Hloads Hl).
  - on_path run_open_fails. now rewrite (Hloads Hl).
  - on_path run_close_fails. now rewrite (Hloads Hl).
  - on_path run_ok. now rewrite (Hloads Hl).
Qed.

(** X12.  When open returns 0 the run is the same sequence of calls whatever
    close returns: the load, the three lookups, open on a zeroed slot, close
    on the device id open stored, and the release of the library. *)
Theorem session_is_open_close_release (w : World) (argv : list string) :
  loads w argv -> symbols_resolve w argv -> open_status w = 0 ->
  calls (final w argv) =
    [LoadLibraryA_call (dllPath argv);
     GetProcAddress_call (loaded_lib w argv) "PassThruOpen";
     GetProcAddress_call (loaded_lib w argv) "PassThruClose";
     GetProcAddress_call (loaded_lib w argv) "PassThruGetLastError";
     PassThruOpen_call 0;
     PassThruClose_call (opened_device w);
     FreeLibrary_call (loaded_lib w argv)].
Proof.
  intros Hl Hs Ho.
  destruct (Z.eq_dec (close_status w) 0) as [Hc | Hc].
  - on_path run_ok. reflexivity.
  - on_path run_close_fails. reflexivity.
Qed.

Lemma session_is_open_close_release_witness :
  close_status (bench 4096 [] 0 5) <> 0 /\
  calls (final (bench 4096 [] 0 5) probe_argv) =
    [LoadLibraryA_call "op20pt32.dll";
     GetProcAddress_call 4096 "PassThruOpen";
     GetProcAddress_call 4096 "PassThruClose";
     GetProcAddress_call 4096 "PassThruGetLastError";
     PassThruOpen_call 0;
     PassThruClose_call 1;
     FreeLibrary_call 4096].
Proof.
  split; [discriminate|].
  apply (session_is_open_close_release (bench 4096 [] 0 5) probe_argv).
  - split; [cbn; lia | discriminate].
  - repeat split; discriminate.
  - reflexivity.
Defined.

(** ** The text of a report *)

(** X13.  Each run writes exactly one line break of its own; every further
    line break in its output comes from the platform's or the driver's text,
    which is inserted as it is. *)
Theorem one_newline_of_its_own (w : World) (argv : list string) :
  count_char newline (stdout_text w argv ++ stderr_text w argv) =
  S (count_char newline (inserted_text (report w argv))).
Proof.
  destruct (run_cases w argv)
    as [H | [H | [[Hl H] | [(Hl & Hs & H) | [(Hl & Hs & Ho & H) | (Hl & Hs & Ho & H)]]]]].
  - on_path run_usage. reflexivity.
  - on_path run_load_fails.
    cbn [load_report render render_item inserted_text append].
    rewrite !count_char_append. cbn. lia.
  - on_path run_symbol_missing. reflexivity.
  - on_path run_open_fails.
    cbn [open_report render render_item inserted_text append].
    rewrite !count_char_append, show_long_holds_no_newline. cbn. lia.
  - on_path run_close_fails.
    cbn [close_report render render_item inserted_text append].
    rewrite !count_char_append, show_long_holds_no_newline. reflexivity.
  - on_path run_ok. reflexivity.
Qed.

(** X14.  The close report determines the status: two runs that both end in
    a refused close and write the same text to [std::cerr] got the same
    status from close. *)
Theorem close_report_determines_code
  (w1 w2 : World) (argv1 argv2 : list string) :
  loads w1 argv1 -> symbols_resolve w1 argv1 ->
  open_status w1 = 0 -> close_status w1 <> 0 ->
  loads w2 argv2 -> symbols_resolve w2 argv2 ->
  open_status w2 = 0 -> close_status w2 <> 0 ->
  stderr_text w1 argv1 = stderr_text w2 argv2 ->
  close_status w1 = close_status w2.
Proof.
  intros Hl1 Hs1 Ho1 Hc1 Hl2 Hs2 Ho2 Hc2.
  unfold stderr_text, final.
  rewrite (run_close_fails w1 argv1), (run_close_fails w2 argv2) by assumption.
  cbn [snd cerr close_report render render_item].
  intros Heq.
  apply append_cancel_left, append_cancel_right in Heq.
  now apply show_long_injective.
Qed.

Lemma close_report_determines_code_witness :
  stderr_text (bench 4096 [] 0 5) probe_argv =
  stderr_text (bench 8192 ["unused"] 0 5) probe_argv /\
  close_status (bench 4096 [] 0 5) = close_status (bench 8192 ["unused"] 0 5).
Proof.
  assert (H : stderr_text (bench 4096 [] 0 5) probe_argv =
              stderr_text (bench 8192 ["unused"] 0 5) probe_argv)
    by reflexivity.
  split; [exact H|].
  apply (close_report_determines_code
           (bench 4096 [] 0 5) (bench 8192 ["unused"] 0 5)
           probe_argv probe_argv);
    try reflexivity; try discriminate;
    try (split; [cbn; lia | discriminate]);
    try (repeat split; discriminate).
Defined.
